(** * AxSyncPy2: the chunked parallel download engine

    A shallow embedding of [axsyncpy2.py] and the properties of its range
    planner, chunk fetcher, segment assembler and download coordinator.

    Python integers are unbounded, so they are [Z]; [//] is floor division,
    which is [Z.div].  The file system is a finite map from paths to file
    contents.  The network is an oracle from requests to responses.  Code
    that raises is modelled in a state-and-exception monad in which the file
    system survives an exception, as it does on disk. *)

From stdpp Require Import base numbers list gmap strings pretty.
From Stdlib.Strings Require Import Ascii Byte.

Local Open Scope Z_scope.

(** ** Exceptions *)

Inductive exn : Type :=
  | ZeroDivisionError
  | IndexError
  | ValueError
  | TypeError
  | FileNotFoundError
  | HTTPError (status : Z)
  | ConnectionError
  | ChunkedEncodingError.

Global Instance exn_eq_dec : EqDecision exn.
Proof. solve_decision. Defined.

(** ** The file system and the monad of effects *)

Abbreviation filesystem := (gmap string (list byte)).

Definition io (A : Type) : Type := filesystem → (exn + A) * filesystem.

Global Instance io_ret : MRet io := λ A x fs, (inr x, fs).
Global Instance io_bind : MBind io := λ A B f m fs,
  match m fs with
  | (inl e, fs') => (inl e, fs')
  | (inr x, fs') => f x fs'
  end.

Definition raise {A} (e : exn) : io A := λ fs, (inl e, fs).

Definition lift {A} (r : exn + A) : io A := λ fs, (r, fs).

(** [open(path, 'wb')]: the file is created, or truncated when it exists.
    The destination directory is taken to exist and to be writable
    ([download_directory] asks for it first), so opening for writing and
    writing do not raise. *)
Definition open_wb (path : string) : io () :=
  λ fs, (inr (), <[path := []]> fs).

(** [f.write(chunk)] on a file opened at [path]. *)
Definition write (path : string) (chunk : list byte) : io () :=
  λ fs, (inr (), <[path := default [] (fs !! path) ++ chunk]> fs).

(** [open(path, 'rb').read()]; [path] is [None] when the caller passes
    Python's [None]. *)
Definition read (path : option string) : io (list byte) :=
  λ fs, match path with
        | None => (inl TypeError, fs)
        | Some p => match fs !! p with
                    | None => (inl FileNotFoundError, fs)
                    | Some content => (inr content, fs)
                    end
        end.

(** [os.remove(path)]. *)
Definition os_remove (path : option string) : io () :=
  λ fs, match path with
        | None => (inl TypeError, fs)
        | Some p => match fs !! p with
                    | None => (inl FileNotFoundError, fs)
                    | Some _ => (inr (), delete p fs)
                    end
        end.

(** ** The network *)

Inductive http_method : Type := HEAD | GET.

(** Every request of the program carries [Accept-Encoding: identity]; the
    [Range] header [bytes=<start>-<end>] is kept as the pair it is built
    from. *)
Record request : Type := Request {
  req_method : http_method;
  req_url : string;
  req_range : option (Z * Z)
}.

(** A response: its status, the value of its [content-length] header if it
    has one, and its body as [iter_content] delivers it: a sequence of
    chunks, after which the stream either ends or raises. *)
Record response : Type := Response {
  status_code : Z;
  content_length : option string;
  iter_content : list (list byte);
  stream_error : option exn
}.

Abbreviation network := (request → exn + response).

Definition requests_head (net : network) (url : string) : io response :=
  lift (net (Request HEAD url None)).

Definition requests_get (net : network) (url : string)
    (range : option (Z * Z)) : io response :=
  lift (net (Request GET url range)).

(** [response.raise_for_status()]: raises for 4xx and 5xx. *)
Definition raise_for_status (r : response) : io () :=
  if bool_decide (400 ≤ status_code r < 600)
  then raise (HTTPError (status_code r))
  else mret ().

(** ** [int(response.headers.get('content-length', 0))] *)

(** The characters [str.strip] and [int] treat as white space, among the
    ASCII ones. *)
Definition is_py_space (c : ascii) : bool :=
  let n := nat_of_ascii c in
  ((9 <=? n)%nat && (n <=? 13)%nat) || ((28 <=? n)%nat && (n <=? 32)%nat).

Fixpoint lstrip (s : string) : string :=
  match s with
  | String c s' => if is_py_space c then lstrip s' else s
  | EmptyString => s
  end.

Definition strip (s : string) : string :=
  String.rev (lstrip (String.rev (lstrip s))).

Definition digit_of (c : ascii) : option Z :=
  let n := nat_of_ascii c in
  if ((48 <=? n)%nat && (n <=? 57)%nat)%bool
  then Some (Z.of_nat n - 48) else None.

(** Decimal digits, where single underscores may separate digits. *)
Fixpoint py_digits (s : string) (acc : Z) (after_digit : bool) : option Z :=
  match s with
  | EmptyString => if after_digit then Some acc else None
  | String c s' =>
      match digit_of c with
      | Some d => py_digits s' (10 * acc + d) true
      | None =>
          if (Ascii.eqb c "_" && after_digit)%bool
          then py_digits s' acc false
          else None
      end
  end.

(** [int(s)] for a string of ASCII characters; [None] stands for
    [ValueError]. *)
Definition py_int (s : string) : option Z :=
  match strip s with
  | String "+" s' => py_digits s' 0 false
  | String "-" s' => Z.opp <$> py_digits s' 0 false
  | s' => py_digits s' 0 false
  end.

Definition total_size_of (r : response) : exn + Z :=
  match content_length r with
  | None => inr 0
  | Some s => match py_int s with
              | Some z => inr z
              | None => inl ValueError
              end
  end.

(** ** The range planner (lines 58-60 of [download_file_multithread]) *)

(** [range(n)] *)
Definition py_range (n : Z) : list Z := Z.of_nat <$> seq 0 (Z.to_nat n).

Definition plan_ranges (total_size num_threads : Z) : exn + list (Z * Z) :=
  if bool_decide (num_threads = 0) then inl ZeroDivisionError else
  let chunk_size := total_size `div` num_threads in
  let ranges :=
    (λ i, (i * chunk_size, (i + 1) * chunk_size - 1)) <$> py_range num_threads in
  match last ranges with
  | None => inl IndexError
  | Some r => inr (<[pred (length ranges) := (r.1, total_size - 1)]> ranges)
  end.

(** ** [download_chunk] *)

(** [for chunk in response.iter_content(chunk_size=8192): f.write(chunk)]:
    the chunks are written as they arrive; a stream that breaks raises after
    the chunks delivered so far have been written. *)
Fixpoint write_stream (path : string) (chunks : list (list byte))
    (err : option exn) : io () :=
  match chunks with
  | [] => match err with Some e => raise e | None => mret () end
  | chunk :: rest => _ ← write path chunk; write_stream path rest err
  end.

(** [f"{file_name}.part{part_number}"] *)
Definition part_name (file_name : string) (part_number : nat) : string :=
  file_name +:+ ".part" +:+ pretty part_number.

Definition download_chunk (net : network) (url : string) (start end_ : Z)
    (file_name : string) (part_number : nat) : io (string * nat) :=
  response ← requests_get net url (Some (start, end_));
  _ ← raise_for_status response;
  let part_file := part_name file_name part_number in
  _ ← open_wb part_file;
  _ ← write_stream part_file (iter_content response) (stream_error response);
  mret (part_file, part_number).

(** ** [combine_parts] *)

Fixpoint combine_loop (file_name : string) (parts : list (option string))
    : io () :=
  match parts with
  | [] => mret ()
  | part :: rest =>
      content ← read part;
      _ ← write file_name content;
      _ ← os_remove part;
      combine_loop file_name rest
  end.

Definition combine_parts (file_name : string) (parts : list (option string))
    : io () :=
  _ ← open_wb file_name; combine_loop file_name parts.

(** ** [download_file_multithread] *)

(** The thread pool has as many workers as there are tasks, so every
    submitted task runs, and leaving the [with ThreadPoolExecutor] block
    waits for all of them, also when the block is left by an exception.  The
    tasks write to files of their own, so the pool is modelled by running
    the tasks one after the other in the order [order] in which they
    complete; [order] lists the ordinals of the tasks and is arbitrary. *)
Fixpoint run_tasks (net : network) (url file_path : string)
    (ranges : list (Z * Z)) (order : list nat) (fs : filesystem)
    : list (exn + string * nat) * filesystem :=
  match order with
  | [] => ([], fs)
  | i :: rest =>
      match ranges !! i with
      | None => run_tasks net url file_path ranges rest fs
      | Some (start, end_) =>
          let '(result, fs1) :=
            download_chunk net url start end_ file_path i fs in
          let '(results, fs2) :=
            run_tasks net url file_path ranges rest fs1 in
          (result :: results, fs2)
      end
  end.

Definition executor (net : network) (url file_path : string)
    (ranges : list (Z * Z)) (order : list nat)
    : io (list (exn + string * nat)) :=
  λ fs, let '(results, fs') := run_tasks net url file_path ranges order fs in
        (inr results, fs').

(** [for future in as_completed(futures)]: [future.result()] raises what the
    task raised; otherwise [parts[part_number] = part_file].  The progress
    bar is left out. *)
Fixpoint collect (results : list (exn + string * nat))
    (parts : list (option string)) : exn + list (option string) :=
  match results with
  | [] => inr parts
  | inl e :: _ => inl e
  | inr (part_file, part_number) :: rest =>
      if bool_decide (part_number < length parts)%nat
      then collect rest (<[part_number := Some part_file]> parts)
      else inl IndexError
  end.

Definition download_file_multithread (net : network) (order : list nat)
    (url file_path : string) (num_threads : Z) : io () :=
  response ← requests_head net url;
  total_size ← lift (total_size_of response);
  ranges ← lift (plan_ranges total_size num_threads);
  let parts := replicate (Z.to_nat num_threads) None in
  results ← executor net url file_path ranges order;
  parts ← lift (collect results parts);
  combine_parts file_path parts.

(** ** [download_file_single_thread] *)

Definition download_file_single_thread (net : network)
    (url file_path : string) : io () :=
  response ← requests_get net url None;
  _ ← raise_for_status response;
  _ ← lift (total_size_of response);
  _ ← open_wb file_path;
  write_stream file_path (iter_content response) (stream_error response).

(** ** [download_file] *)

Definition download_file (net : network) (order : list nat)
    (url file_path : string) (num_threads : Z) : io () :=
  response ← requests_head net url;
  total_size ← lift (total_size_of response);
  if bool_decide (total_size < 1024 * 1024)
  then download_file_single_thread net url file_path
  else download_file_multithread net order url file_path num_threads.

(** ** [download_directory] *)

(** [s.startswith(p)] *)
Fixpoint startswith (s p : string) {struct p} : bool :=
  match p, s with
  | EmptyString, _ => true
  | String a p', String b s' => Ascii.eqb a b && startswith s' p'
  | String _ _, EmptyString => false
  end.

(** [s.endswith(p)] *)
Fixpoint endswith (s p : string) : bool :=
  bool_decide (s = p) ||
  match s with
  | String _ s' => endswith s' p
  | EmptyString => false
  end.

(** [os.path.join(a, b)] of [posixpath]. *)
Definition os_path_join (a b : string) : string :=
  if startswith b "/" then b
  else if bool_decide (a = "") || endswith a "/" then a +:+ b
  else a +:+ "/" +:+ b.

(** The test of line 116, on [link.get('href')], which is [None] for an
    anchor without the attribute. *)
Definition skipped (href : option string) : bool :=
  match href with
  | None => true
  | Some file_name =>
      bool_decide (file_name = "") || startswith file_name "?"
      || endswith file_name "/" || bool_decide (file_name = "../")
  end.

(** The pairs [(file_url, file_path)] the loop calls [download_file] with. *)
Definition download_jobs (base_url destination_folder : string)
    (links : list (option string)) : list (string * string) :=
  omap (λ href,
          if skipped href then None
          else let file_name := default "" href in
               Some (base_url +:+ file_name,
                     os_path_join destination_folder file_name)) links.

(** [try: ... except Exception as e: print(...)] *)
Definition try_except (m : io ()) : io () :=
  λ fs, match m fs with
        | (inl _, fs') => (inr (), fs')
        | (inr (), fs') => (inr (), fs')
        end.

Fixpoint download_each (net : network) (sched : string → list nat)
    (num_threads : Z) (jobs : list (string * string)) : io () :=
  match jobs with
  | [] => mret ()
  | (file_url, file_path) :: rest =>
      _ ← try_except
            (download_file net (sched file_url) file_url file_path num_threads);
      download_each net sched num_threads rest
  end.

(** [dir_ok] is the answer of [check_or_create_directory], which asks the
    user; [find_all_a] is the HTML parser, giving the [href] of every anchor
    of the listing; [sched] gives the completion order of the fetchers of
    each job. *)
Definition download_directory (net : network) (sched : string → list nat)
    (dir_ok : bool) (find_all_a : response → list (option string))
    (base_url destination_folder : string) (num_threads : Z) : io () :=
  if negb dir_ok then mret () else
  response ← requests_get net base_url None;
  download_each net sched num_threads
    (download_jobs base_url destination_folder (find_all_a response)).

(** ** [os.path.dirname] of [posixpath] *)





(** ** Servers used to exercise the model *)

(** The bytes [start..end] of [data], both inclusive; empty when
    [end < start]. *)
Definition slice (data : list byte) (start end_ : Z) : list byte :=
  take (Z.to_nat (end_ - start + 1)) (drop (Z.to_nat start) data).

(** A server that honours [Range]: it answers a ranged GET with 206 and the
    bytes asked for, in one chunk. *)
Definition range_server (data : list byte) : network :=
  λ req,
    match req_method req, req_range req with
    | HEAD, _ =>
        inr (Response 200 (Some (pretty (Z.of_nat (length data)))) [] None)
    | GET, None =>
        inr (Response 200 (Some (pretty (Z.of_nat (length data)))) [data] None)
    | GET, Some (start, end_) =>
        inr (Response 206 None [slice data start end_] None)
    end.

(** A server that ignores [Range] and always sends the whole resource. *)
Definition whole_server (data : list byte) : network :=
  λ req,
    match req_method req with
    | HEAD => inr (Response 200 (Some (pretty (Z.of_nat (length data)))) [] None)
    | GET => inr (Response 200 (Some (pretty (Z.of_nat (length data)))) [data] None)
    end.

(** A server as [range_server], but refusing the ranged GET that starts at
    [bad] with status 403. *)
Definition forbidding_server (data : list byte) (bad : Z) : network :=
  λ req,
    match req_method req, req_range req with
    | GET, Some (start, _) =>
        if bool_decide (start = bad)
        then inr (Response 403 None [] None)
        else range_server data req
    | _, _ => range_server data req
    end.

(** ** What a fetcher obtains *)

(** The bytes [download_chunk] stores for a range when it succeeds: the
    request is answered, the status is no error status and the body arrives
    whole.  [None] when the fetch raises. *)
Definition fetched (net : network) (url : string) (range : Z * Z)
    : option (list byte) :=
  match net (Request GET url (Some range)) with
  | inl _ => None
  | inr r =>
      if bool_decide (400 ≤ status_code r < 600) then None
      else match stream_error r with
           | Some _ => None
           | None => Some (mjoin (iter_content r))
           end
  end.

(** The exception [download_chunk] raises for a range when it fails. *)
Definition fetch_error (net : network) (url : string) (range : Z * Z)
    : option exn :=
  match net (Request GET url (Some range)) with
  | inl e => Some e
  | inr r =>
      if bool_decide (400 ≤ status_code r < 600)
      then Some (HTTPError (status_code r))
      else stream_error r
  end.

(** ** Properties of a plan *)

Definition in_range (x : Z) (r : Z * Z) : Prop := r.1 ≤ x ≤ r.2.

(** Each range starts right after the previous one ends. *)
Definition contiguous (rs : list (Z * Z)) : Prop :=
  ∀ (i : nat) r r', rs !! i = Some r → rs !! S i = Some r' → r'.1 = r.2 + 1.

(** No offset belongs to two ranges of the plan. *)
Definition non_overlapping (rs : list (Z * Z)) : Prop :=
  ∀ (i j : nat) r r' x,
    i ≠ j → rs !! i = Some r → rs !! j = Some r' →
    in_range x r → ¬ in_range x r'.

(** The offsets in some range of the plan are those of [0, total_size - 1]. *)
Definition covers (rs : list (Z * Z)) (total_size : Z) : Prop :=
  ∀ x, (∃ r, r ∈ rs ∧ in_range x r) ↔ 0 ≤ x ≤ total_size - 1.

(** * The range planner *)

Lemma insert_last_snoc {A} (l : list A) (x y : A) :
  <[pred (length (l ++ [y])) := x]> (l ++ [y]) = l ++ [x].
Proof.
  rewrite length_app. simpl.
  replace (pred (length l + 1)) with (length l + 0)%nat by lia.
  by rewrite insert_app_r.
Qed.

Lemma py_range_snoc (n : Z) :
  1 ≤ n → py_range n = py_range (n - 1) ++ [n - 1].
Proof.
  intros Hn. unfold py_range.
  replace (Z.to_nat n) with (S (Z.to_nat (n - 1))) by lia.
  rewrite seq_S, fmap_app. simpl. do 2 f_equal. lia.
Qed.

Lemma py_range_lookup (n : Z) (i : nat) :
  py_range n !! i = if decide (Z.of_nat i < n) then Some (Z.of_nat i) else None.
Proof.
  unfold py_range. rewrite list_lookup_fmap.
  case_decide.
  - rewrite lookup_seq_lt by lia. done.
  - rewrite lookup_seq_ge by lia. done.
Qed.

Section planner.
Variables total_size num_threads : Z.
Hypothesis workers_pos : 1 ≤ num_threads.

Let chunk_size := total_size `div` num_threads.
Let nth_range (i : Z) : Z * Z := (i * chunk_size, (i + 1) * chunk_size - 1).

Lemma plan_ranges_shape :
  plan_ranges total_size num_threads =
    inr ((nth_range <$> py_range (num_threads - 1))
           ++ [((num_threads - 1) * chunk_size, total_size - 1)]).
Proof.
  unfold plan_ranges. rewrite bool_decide_false by lia.
  rewrite py_range_snoc, fmap_app by done. simpl.
  rewrite last_snoc. simpl. f_equal. apply insert_last_snoc.
Qed.

Lemma plan_ranges_lookup rs :
  plan_ranges total_size num_threads = inr rs → ∀ i : nat,
  rs !! i =
    if decide (Z.of_nat i < num_threads - 1) then Some (nth_range (Z.of_nat i))
    else if decide (Z.of_nat i = num_threads - 1)
         then Some ((num_threads - 1) * chunk_size, total_size - 1)
         else None.
Proof.
  rewrite plan_ranges_shape. intros [= <-] i.
  assert (length (nth_range <$> py_range (num_threads - 1)) = Z.to_nat (num_threads - 1)) as Hlen.
  { unfold py_range. by rewrite !length_fmap, length_seq. }
  case_decide.
  - rewrite lookup_app_l by lia.
    rewrite list_lookup_fmap, py_range_lookup, decide_True by done. done.
  - rewrite lookup_app_r by lia. rewrite Hlen.
    case_decide.
    + replace (i - _)%nat with 0%nat by lia. done.
    + destruct (i - _)%nat as [|k] eqn:E; [lia|done].
Qed.

Lemma plan_ranges_length rs :
  plan_ranges total_size num_threads = inr rs →
  length rs = Z.to_nat num_threads.
Proof.
  rewrite plan_ranges_shape. intros [= <-].
  unfold py_range. rewrite length_app, !length_fmap, length_seq. simpl. lia.
Qed.
End planner.

Lemma chunk_size_bounds (total_size num_threads : Z) :
  0 ≤ total_size → 1 ≤ num_threads →
  0 ≤ total_size `div` num_threads ∧
  num_threads * (total_size `div` num_threads) ≤ total_size.
Proof.
  intros. split.
  - apply Z.div_pos; lia.
  - apply Z.mul_div_le. lia.
Qed.

(** C1, as amended: for every [total_size ≥ 0] and [num_threads ≥ 1] the
    planner returns exactly [num_threads] ranges, which are contiguous, do
    not overlap, and whose union is exactly [0, total_size - 1].  The count
    is [num_threads] also when [total_size = 0]. *)
Theorem plan_ranges_partition (total_size num_threads : Z) :
  0 ≤ total_size → 1 ≤ num_threads →
  ∃ rs, plan_ranges total_size num_threads = inr rs ∧
        length rs = Z.to_nat num_threads ∧
        contiguous rs ∧ non_overlapping rs ∧ covers rs total_size.
Proof.
  intros Htotal Hn.
  destruct (chunk_size_bounds total_size num_threads Htotal Hn) as [Hc Hle].
  pose proof (plan_ranges_shape total_size num_threads Hn) as Hplan.
  eexists. split; [exact Hplan|].
  pose proof (plan_ranges_lookup total_size num_threads Hn _ Hplan) as Hlk.
  pose proof (plan_ranges_length total_size num_threads Hn _ Hplan) as Hlen.
  cbv zeta in Hlk.
  set (c := total_size `div` num_threads) in *.
  split; [exact Hlen|].
  split; [|split].
  - intros i r r' Hi HSi. rewrite Hlk in Hi, HSi.
    repeat case_decide; simplify_eq/=; lia.
  - intros i j r r' x Hij Hi Hj [Hx1 Hx2] [Hy1 Hy2]. rewrite Hlk in Hi, Hj.
    repeat case_decide; simplify_eq/=; nia.
  - intros x. split.
    + intros (r & Hr & [Hx1 Hx2]).
      apply list_elem_of_lookup in Hr as [i Hi]. rewrite Hlk in Hi.
      repeat case_decide; simplify_eq/=; nia.
    + intros [Hx1 Hx2].
      destruct (decide (x < (num_threads - 1) * c)) as [Hlt|Hge].
      * assert (0 < c) by nia.
        pose proof (Z.div_pos x c Hx1 ltac:(lia)).
        pose proof (Z.mul_div_le x c ltac:(lia)).
        pose proof (Z.mul_succ_div_gt x c ltac:(lia)).
        assert (x `div` c < num_threads - 1) by nia.
        exists (x `div` c * c, (x `div` c + 1) * c - 1). split.
        -- apply list_elem_of_lookup. exists (Z.to_nat (x `div` c)).
           rewrite Hlk, decide_True by lia. by rewrite Z2Nat.id.
        -- unfold in_range. simpl. lia.
      * exists ((num_threads - 1) * c, total_size - 1). split.
        -- apply list_elem_of_lookup. exists (Z.to_nat (num_threads - 1)).
           rewrite Hlk, decide_False, decide_True by lia. done.
        -- unfold in_range. simpl. lia.
Qed.

(** C1, witness: 100 bytes and 3 workers. *)
Lemma plan_ranges_partition_witness :
  ∃ rs, plan_ranges 100 3 = inr rs ∧
        length rs = Z.to_nat 3 ∧
        contiguous rs ∧ non_overlapping rs ∧ covers rs 100.
Proof. apply (plan_ranges_partition 100 3); lia. Defined.

(** C1, as stated, fails: for an empty resource and 4 workers the planner
    returns 4 ranges, not 1. *)
Lemma plan_ranges_empty_resource_count :
  ∃ rs, plan_ranges 0 4 = inr rs ∧ length rs = 4%nat ∧ length rs ≠ 1%nat.
Proof. eexists. split; [reflexivity|]. split; [reflexivity|]. simpl. lia. Qed.

(** C2: the planner computes [chunk_size] by truncating division of
    [total_size] by [num_threads], range [i] is
    [(i * chunk_size, (i + 1) * chunk_size - 1)] for [0 ≤ i ≤ num_threads - 2],
    and the last range is [((num_threads - 1) * chunk_size, total_size - 1)];
    100 bytes and 3 workers give [(0,32)], [(33,65)], [(66,99)]. *)
Theorem plan_ranges_formula (total_size num_threads : Z) :
  0 ≤ total_size → 1 ≤ num_threads →
  let chunk_size := total_size `quot` num_threads in
  ∃ rs, plan_ranges total_size num_threads = inr rs ∧
        length rs = Z.to_nat num_threads ∧
        (∀ i : nat, Z.of_nat i ≤ num_threads - 2 →
           rs !! i = Some (Z.of_nat i * chunk_size,
                           (Z.of_nat i + 1) * chunk_size - 1)) ∧
        rs !! Z.to_nat (num_threads - 1) =
          Some ((num_threads - 1) * chunk_size, total_size - 1) ∧
        plan_ranges 100 3 = inr [(0, 32); (33, 65); (66, 99)].
Proof.
  intros Htotal Hn chunk_size. unfold chunk_size.
  rewrite Z.quot_div_nonneg by lia.
  pose proof (plan_ranges_shape total_size num_threads Hn) as Hplan.
  eexists. split; [exact Hplan|].
  pose proof (plan_ranges_lookup total_size num_threads Hn _ Hplan) as Hlk.
  cbv zeta in Hlk.
  split; [exact (plan_ranges_length total_size num_threads Hn _ Hplan)|].
  split; [|split].
  - intros i Hi. by rewrite Hlk, decide_True by lia.
  - by rewrite Hlk, decide_False, decide_True by lia.
  - reflexivity.
Qed.

(** C2, witness: 10 bytes and 4 workers. *)
Lemma plan_ranges_formula_witness :
  ∃ rs, plan_ranges 10 4 = inr rs ∧
        length rs = 4%nat ∧
        (∀ i : nat, Z.of_nat i ≤ 2 →
           rs !! i = Some (Z.of_nat i * 2, (Z.of_nat i + 1) * 2 - 1)) ∧
        rs !! 3%nat = Some (6, 9) ∧
        plan_ranges 100 3 = inr [(0, 32); (33, 65); (66, 99)].
Proof. apply (plan_ranges_formula 10 4); lia. Defined.

(** * The chunk fetcher *)

Lemma write_stream_spec path chunks err (fs : filesystem) acc :
  fs !! path = Some acc →
  write_stream path chunks err fs =
    (match err with Some e => inl e | None => inr () end,
     <[path := acc ++ mjoin chunks]> fs).
Proof.
  revert fs acc. induction chunks as [|chunk rest IH]; intros fs acc Hacc; simpl.
  - rewrite app_nil_r, insert_id by done. by destruct err.
  - unfold mbind, io_bind, write. simpl. rewrite Hacc. simpl.
    erewrite IH by apply lookup_insert_eq.
    by rewrite insert_insert_eq, app_assoc.
Qed.

(** What [download_chunk] returns and leaves on disk, case by case. *)
Lemma download_chunk_unfold net url start end_ file_name part_number
    (fs : filesystem) :
  download_chunk net url start end_ file_name part_number fs =
    match net (Request GET url (Some (start, end_))) with
    | inl e => (inl e, fs)
    | inr r =>
        if bool_decide (400 ≤ status_code r < 600)
        then (inl (HTTPError (status_code r)), fs)
        else (match stream_error r with
              | Some e => inl e
              | None => inr (part_name file_name part_number, part_number)
              end,
              <[part_name file_name part_number := mjoin (iter_content r)]> fs)
    end.
Proof.
  unfold download_chunk, requests_get, lift, raise_for_status, open_wb.
  unfold mbind, io_bind. simpl.
  destruct (net _) as [e|r]; [done|].
  case_bool_decide; [done|]. simpl.
  erewrite write_stream_spec by apply lookup_insert_eq.
  rewrite insert_insert_eq. simpl. by destruct (stream_error r).
Qed.

(** C10: a chunk fetch succeeds for every response whose status is not an
    error status, and the segment file then holds exactly the bytes of the
    response body, whatever their number; a server that ignores [Range] and
    sends the whole resource with status 200 yields a segment holding the
    whole resource. *)
Theorem download_chunk_writes_body net url start end_ file_name part_number
    (fs : filesystem) r :
  net (Request GET url (Some (start, end_))) = inr r →
  ¬ (400 ≤ status_code r < 600) →
  stream_error r = None →
  download_chunk net url start end_ file_name part_number fs =
    (inr (part_name file_name part_number, part_number),
     <[part_name file_name part_number := mjoin (iter_content r)]> fs)
  ∧ ∀ data,
      download_chunk (whole_server data) url start end_ file_name part_number fs
      = (inr (part_name file_name part_number, part_number),
         <[part_name file_name part_number := data]> fs).
Proof.
  intros Hnet Hstatus Hstream. split.
  - rewrite download_chunk_unfold, Hnet, bool_decide_false, Hstream by done.
    done.
  - intros data. rewrite download_chunk_unfold. simpl. by rewrite app_nil_r.
Qed.

(** C10, witness: asked for the bytes 0..1 of a resource of 5 bytes, a
    server that ignores [Range] fills the segment with all 5 bytes. *)
Lemma download_chunk_writes_body_witness :
  let data := [x61; x62; x63; x64; x65] in
  download_chunk (whole_server data) "u" 0 1 "out" 0 ∅ =
    (inr (part_name "out" 0, 0%nat),
     <[part_name "out" 0 := mjoin [data]]> ∅)
  ∧ ∀ data',
      download_chunk (whole_server data') "u" 0 1 "out" 0 ∅
      = (inr (part_name "out" 0, 0%nat), <[part_name "out" 0 := data']> ∅).
Proof.
  intros data.
  apply (download_chunk_writes_body (whole_server data) "u" 0 1 "out" 0 ∅
           (Response 200 (Some (pretty (Z.of_nat (length data)))) [data] None)).
  - reflexivity.
  - simpl. lia.
  - reflexivity.
Defined.







(** * The coordinator's choice of strategy *)

Lemma download_file_unfold net order url file_path num_threads
    (fs : filesystem) :
  download_file net order url file_path num_threads fs =
    match net (Request HEAD url None) with
    | inl e => (inl e, fs)
    | inr r =>
        match total_size_of r with
        | inl e => (inl e, fs)
        | inr total_size =>
            if bool_decide (total_size < 1048576)
            then download_file_single_thread net url file_path fs
            else download_file_multithread net order url file_path num_threads fs
        end
    end.
Proof.
  unfold download_file, requests_head, lift, mbind, io_bind.
  destruct (net _) as [e|r]; [done|].
  destruct (total_size_of r) as [e|total_size]; [done|].
  change (1024 * 1024) with 1048576. by case_bool_decide.
Qed.

(** C3: for every probed [total_size], [download_file] takes the
    single-stream path when [total_size] is strictly below 1,048,576 and
    the multi-worker path otherwise; at exactly 1,048,576 it takes the
    multi-worker path. *)
Theorem download_file_strategy net order url file_path num_threads
    (fs : filesystem) r total_size :
  net (Request HEAD url None) = inr r →
  total_size_of r = inr total_size →
  (total_size < 1048576 →
     download_file net order url file_path num_threads fs
     = download_file_single_thread net url file_path fs)
  ∧ (1048576 ≤ total_size →
     download_file net order url file_path num_threads fs
     = download_file_multithread net order url file_path num_threads fs)
  ∧ (total_size = 1048576 →
     download_file net order url file_path num_threads fs
     = download_file_multithread net order url file_path num_threads fs).
Proof.
  intros Hnet Hsize. rewrite download_file_unfold, Hnet, Hsize.
  repeat split; intros; case_bool_decide; done || lia.
Qed.

(** C3, witness: a probe that announces exactly 1,048,576 bytes. *)
Lemma download_file_strategy_witness :
  let net : network := λ _, inr (Response 200 (Some "1048576") [] None) in
  (1048576 < 1048576 →
     download_file net [0; 1]%nat "u" "out" 2 ∅
     = download_file_single_thread net "u" "out" ∅)
  ∧ (1048576 ≤ 1048576 →
     download_file net [0; 1]%nat "u" "out" 2 ∅
     = download_file_multithread net [0; 1]%nat "u" "out" 2 ∅)
  ∧ (1048576 = 1048576 →
     download_file net [0; 1]%nat "u" "out" 2 ∅
     = download_file_multithread net [0; 1]%nat "u" "out" 2 ∅).
Proof.
  intros net.
  apply (download_file_strategy net [0; 1]%nat "u" "out" 2 ∅
           (Response 200 (Some "1048576") [] None) 1048576).
  - reflexivity.
  - vm_compute. reflexivity.
Defined.

(** C7, as amended: when the probe is answered, with whatever status, and
    the answer has no [content-length] header, the size is taken to be 0 and
    the job goes on along the single-stream path. *)
Theorem download_file_without_content_length net order url file_path
    num_threads (fs : filesystem) r :
  net (Request HEAD url None) = inr r →
  content_length r = None →
  total_size_of r = inr 0
  ∧ download_file net order url file_path num_threads fs
    = download_file_single_thread net url file_path fs.
Proof.
  intros Hnet Hnone.
  assert (total_size_of r = inr 0) as Hsize.
  { unfold total_size_of. by rewrite Hnone. }
  split; [done|].
  by rewrite download_file_unfold, Hnet, Hsize.
Qed.

(** C7, witness: a server that never sends [content-length]. *)
Lemma download_file_without_content_length_witness :
  let r := Response 200 None [[x61; x62]] None in
  total_size_of r = inr 0
  ∧ download_file (λ _, inr r) [0]%nat "u" "out" 1 ∅
    = download_file_single_thread (λ _, inr r) "u" "out" ∅.
Proof.
  intros r.
  apply (download_file_without_content_length (λ _, inr r) [0]%nat "u" "out" 1 ∅ r);
    reflexivity.
Defined.

(** C7, as stated, fails: a probe that fails in transit, or that announces a
    length that is no number, makes [download_file] raise; nothing is
    downloaded. *)
Lemma download_file_probe_failure :
  download_file (λ _, inl ConnectionError) [0]%nat "u" "out" 1 ∅
    = (inl ConnectionError, ∅)
  ∧ download_file (λ _, inr (Response 200 (Some "unknown") [[x61]] None))
      [0]%nat "u" "out" 1 ∅
    = (inl ValueError, ∅).
Proof. split; reflexivity. Qed.

(** * The directory listing *)

Lemma startswith_spec s p : startswith s p = true ↔ ∃ rest, s = p +:+ rest.
Proof.
  revert s. induction p as [|a p IH]; intros s; simpl.
  - split; [by exists s|done].
  - destruct s as [|b s].
    + split; [done|]. by intros [rest ?].
    + rewrite andb_true_iff, IH, Ascii.eqb_eq. split.
      * intros [-> [rest ->]]. by exists rest.
      * intros [rest [= -> ->]]. split; [done|]. by exists rest.
Qed.

Lemma endswith_spec s p : endswith s p = true ↔ ∃ front, s = front +:+ p.
Proof.
  induction s as [|c s IH]; simpl.
  - rewrite orb_false_r, bool_decide_eq_true. split.
    + intros <-. by exists "".
    + intros [front H]. destruct front; [done|discriminate].
  - rewrite orb_true_iff, IH, bool_decide_eq_true. split.
    + intros [<-|[front ->]]; [by exists ""|by exists (String c front)].
    + intros [[|c' front] H]; simpl in H.
      * by left.
      * injection H as -> ->. right. by exists front.
Qed.

(** C8: a link target yields a download job exactly when it is not empty,
    does not start with [?], does not end with [/] and is not [../]; of
    [../], [?C=N;O=D], [subdir/] and [file.txt] only [file.txt] yields a
    job. *)
Theorem download_jobs_filter base_url destination_folder links :
  (∀ job, job ∈ download_jobs base_url destination_folder links ↔
     ∃ file_name,
       Some file_name ∈ links
       ∧ file_name ≠ ""
       ∧ ¬ (∃ rest, file_name = "?" +:+ rest)
       ∧ ¬ (∃ front, file_name = front +:+ "/")
       ∧ file_name ≠ "../"
       ∧ job = (base_url +:+ file_name,
                os_path_join destination_folder file_name))
  ∧ download_jobs base_url destination_folder
      [Some "../"; Some "?C=N;O=D"; Some "subdir/"; Some "file.txt"]
    = [(base_url +:+ "file.txt",
        os_path_join destination_folder "file.txt")].
Proof.
  split; [|done].
  intros job. unfold download_jobs. rewrite list_elem_of_omap. split.
  - intros (href & Hin & Hjob).
    destruct (skipped href) eqn:Hskip; [done|].
    destruct href as [file_name|]; [|done].
    unfold skipped in Hskip. cbn [default] in Hjob.
    apply orb_false_iff in Hskip as [Hskip Hdot].
    apply orb_false_iff in Hskip as [Hskip Hend].
    apply orb_false_iff in Hskip as [Hempty Hstart].
    apply bool_decide_eq_false in Hempty, Hdot.
    exists file_name. repeat split; [done|done|..|done|by injection Hjob].
    + rewrite <-startswith_spec. by rewrite Hstart.
    + rewrite <-endswith_spec. by rewrite Hend.
  - intros (file_name & Hin & Hempty & Hstart & Hend & Hdot & ->).
    exists (Some file_name). split; [done|].
    rewrite <-startswith_spec in Hstart. rewrite <-endswith_spec in Hend.
    unfold skipped.
    rewrite (bool_decide_false _ Hempty), (bool_decide_false _ Hdot).
    apply not_true_is_false in Hstart, Hend. by rewrite Hstart, Hend.
Qed.

(** A resource that fails is logged and skipped: the loop over the jobs of a
    listing never raises. *)
Lemma download_each_returns net sched num_threads jobs (fs : filesystem) :
  (download_each net sched num_threads jobs fs).1 = inr ().
Proof.
  revert fs. induction jobs as [|[file_url file_path] jobs IH]; intros fs; [done|].
  simpl. unfold mbind, io_bind, try_except.
  destruct (download_file _ _ _ _ _ _) as [[e|[]] fs1]; apply IH.
Qed.

(** * Segment files *)

Lemma string_app_ne (p s : string) : s ≠ "" → p +:+ s ≠ p.
Proof.
  intros Hs. induction p as [|c p IH]; simpl; [done|].
  intros [= H]. by apply IH.
Qed.

Lemma part_name_ne file_name i : part_name file_name i ≠ file_name.
Proof. unfold part_name. by apply string_app_ne. Qed.

Lemma part_name_inj file_name i j :
  part_name file_name i = part_name file_name j → i = j.
Proof.
  unfold part_name. intros H.
  apply (inj (String.app file_name)) in H.
  apply (inj (String.app ".part")) in H.
  by apply (inj pretty) in H.
Qed.

Section fetchers.
Variable net : network.
Variables url file_path : string.
Variable ranges : list (Z * Z).

Let pn := part_name file_path.

Lemma download_chunk_fetched start end_ i (fs : filesystem) body :
  fetched net url (start, end_) = Some body →
  download_chunk net url start end_ file_path i fs
    = (inr (pn i, i), <[pn i := body]> fs).
Proof.
  unfold fetched. rewrite download_chunk_unfold.
  destruct (net _) as [e|r]; [done|].
  case_bool_decide; [done|].
  destruct (stream_error r); [done|]. by intros [= <-].
Qed.

Lemma download_chunk_raises start end_ i (fs : filesystem) e :
  (download_chunk net url start end_ file_path i fs).1 = inl e ↔
  fetch_error net url (start, end_) = Some e.
Proof.
  unfold fetch_error. rewrite download_chunk_unfold.
  destruct (net _) as [e'|r]; simpl; [naive_solver|].
  case_bool_decide; simpl; [naive_solver|].
  destruct (stream_error r); naive_solver.
Qed.

Lemma fetched_or_error range :
  fetched net url range = None ↔ is_Some (fetch_error net url range).
Proof.
  unfold fetched, fetch_error.
  destruct (net _) as [e'|r]; [by split; eauto|].
  case_bool_decide; [by split; eauto|].
  destruct (stream_error r); [by split; eauto|].
  split; [done|]. by intros [? ?].
Qed.

Lemma download_chunk_frame start end_ i (fs : filesystem) path :
  path ≠ pn i →
  (download_chunk net url start end_ file_path i fs).2 !! path = fs !! path.
Proof.
  intros Hne. rewrite download_chunk_unfold.
  destruct (net _) as [e|r]; [done|].
  case_bool_decide; [done|]. simpl. by rewrite lookup_insert_ne.
Qed.

(** The tasks leave every file alone that is not one of their segments. *)
Lemma run_tasks_frame order (fs : filesystem) path :
  (∀ i, i ∈ order → path ≠ pn i) →
  (run_tasks net url file_path ranges order fs).2 !! path = fs !! path.
Proof.
  revert fs. induction order as [|i order IH]; intros fs Hne; simpl; [done|].
  destruct (ranges !! i) as [[start end_]|].
  - destruct (download_chunk _ _ _ _ _ _ _) as [result fs1] eqn:Hchunk.
    destruct (run_tasks _ _ _ _ _ fs1) as [results fs2] eqn:Hrest. simpl.
    replace fs2 with (run_tasks net url file_path ranges order fs1).2
      by by rewrite Hrest.
    rewrite IH by (intros; apply Hne; set_solver).
    replace fs1 with (download_chunk net url start end_ file_path i fs).2
      by by rewrite Hchunk.
    apply download_chunk_frame, Hne. set_solver.
  - apply IH. intros; apply Hne; set_solver.
Qed.

(** The destination is not a segment, so the tasks leave it alone. *)
Lemma run_tasks_destination order (fs : filesystem) :
  (run_tasks net url file_path ranges order fs).2 !! file_path
    = fs !! file_path.
Proof.
  apply run_tasks_frame. intros i _ H. by apply (part_name_ne file_path i).
Qed.

(** A task whose fetch succeeds leaves its segment on disk, whatever the
    other tasks do. *)
Lemma run_tasks_fetched order (fs : filesystem) i range body :
  NoDup order → i ∈ order →
  ranges !! i = Some range → fetched net url range = Some body →
  (run_tasks net url file_path ranges order fs).2 !! pn i = Some body.
Proof.
  intros Hnodup Hin Hrange Hbody. revert fs.
  induction order as [|j order IH]; intros fs; [by apply elem_of_nil in Hin|].
  apply NoDup_cons in Hnodup as [Hj Hnodup]. simpl.
  destruct (decide (i = j)) as [<-|Hij].
  - rewrite Hrange. destruct range as [start end_].
    rewrite (download_chunk_fetched _ _ _ _ _ Hbody).
    destruct (run_tasks _ _ _ _ _ _) as [results fs2] eqn:Hrest. simpl.
    replace fs2 with
      (run_tasks net url file_path ranges order (<[pn i := body]> fs)).2
      by by rewrite Hrest.
    rewrite run_tasks_frame, lookup_insert_eq; [done|].
    intros k Hk Heq. apply part_name_inj in Heq. by subst.
  - assert (i ∈ order) as Hin' by set_solver.
    destruct (ranges !! j) as [[start end_]|]; [|by apply IH].
    destruct (download_chunk _ _ _ _ _ _ _) as [result fs1].
    pose proof (IH Hnodup Hin' fs1) as Hrest.
    by destruct (run_tasks _ _ _ _ _ fs1) as [results fs2].
Qed.

(** When every fetch succeeds, the results are the segments, in
    completion order. *)
Lemma run_tasks_all_fetched order (fs : filesystem) :
  (∀ i, i ∈ order →
     ∃ range, ranges !! i = Some range ∧ is_Some (fetched net url range)) →
  (run_tasks net url file_path ranges order fs).1
    = (λ i, inr (pn i, i)) <$> order.
Proof.
  revert fs. induction order as [|i order IH]; intros fs Hall; [done|].
  destruct (Hall i) as ([start end_] & Hrange & body & Hbody); [set_solver|].
  simpl. rewrite Hrange, (download_chunk_fetched _ _ _ _ _ Hbody).
  specialize (IH (<[pn i := body]> fs)).
  destruct (run_tasks _ _ _ _ _ _) as [results fs2]. simpl in *.
  rewrite IH; [done|]. intros; apply Hall; set_solver.
Qed.

(** Every result that is a segment carries the ordinal of a range. *)
Lemma run_tasks_ordinals order (fs : filesystem) :
  Forall (λ result, match result with
                    | inl _ => True
                    | inr (_, k) => (k < length ranges)%nat
                    end)
    (run_tasks net url file_path ranges order fs).1.
Proof.
  revert fs. induction order as [|i order IH]; intros fs; simpl; [constructor|].
  destruct (ranges !! i) as [[start end_]|] eqn:Hrange; [|apply IH].
  rewrite download_chunk_unfold.
  specialize (IH fs) as IH0.
  destruct (net _) as [e|r].
  { destruct (run_tasks _ _ _ _ _ _) as [results fs2]. by constructor. }
  case_bool_decide.
  { destruct (run_tasks _ _ _ _ _ _) as [results fs2]. by constructor. }
  clear IH0.
  specialize (IH (<[part_name file_path i := mjoin (iter_content r)]> fs)).
  destruct (run_tasks _ _ _ _ _ _) as [results fs2]. simpl in *.
  constructor; [|done].
  destruct (stream_error r); [done|]. by eapply lookup_lt_Some.
Qed.

(** Every exception among the results is that of a fetcher. *)
Lemma run_tasks_errors order (fs : filesystem) e :
  inl e ∈ (run_tasks net url file_path ranges order fs).1 →
  ∃ i range, i ∈ order ∧ ranges !! i = Some range
             ∧ fetch_error net url range = Some e.
Proof.
  revert fs. induction order as [|i order IH]; intros fs; simpl.
  { intros H. by apply elem_of_nil in H. }
  destruct (ranges !! i) as [[start end_]|] eqn:Hrange.
  - destruct (download_chunk _ _ _ _ _ _ _) as [result fs1] eqn:Hchunk.
    specialize (IH fs1).
    destruct (run_tasks _ _ _ _ _ fs1) as [results fs2]. simpl in *.
    intros [<-|Hin]%elem_of_cons.
    + exists i, (start, end_). split; [set_solver|]. split; [done|].
      apply (download_chunk_raises start end_ i fs). by rewrite Hchunk.
    + destruct (IH Hin) as (j & range & ? & ? & ?).
      exists j, range. set_solver.
  - intros Hin. destruct (IH _ Hin) as (j & range & ? & ? & ?).
    exists j, range. set_solver.
Qed.

(** A fetcher that fails leaves an exception among the results. *)
Lemma run_tasks_failed order (fs : filesystem) i range :
  i ∈ order → ranges !! i = Some range → fetched net url range = None →
  Exists (λ result, ∃ e, result = inl e)
    (run_tasks net url file_path ranges order fs).1.
Proof.
  intros Hin Hrange Hfail. revert fs.
  induction order as [|j order IH]; intros fs; [by apply elem_of_nil in Hin|].
  simpl. destruct (decide (i = j)) as [<-|Hij].
  - rewrite Hrange. destruct range as [start end_].
    apply fetched_or_error in Hfail as [e He].
    apply (download_chunk_raises start end_ i fs) in He.
    destruct (download_chunk _ _ _ _ _ _ _) as [result fs1].
    destruct (run_tasks _ _ _ _ _ fs1) as [results fs2]. simpl in *.
    apply Exists_cons_hd. eauto.
  - assert (i ∈ order) as Hin' by set_solver.
    destruct (ranges !! j) as [[start end_]|]; [|by apply IH].
    destruct (download_chunk _ _ _ _ _ _ _) as [result fs1].
    pose proof (IH Hin' fs1) as Hrest.
    destruct (run_tasks _ _ _ _ _ fs1) as [results fs2]. simpl in *.
    by apply Exists_cons_tl.
Qed.
End fetchers.

(** * Collecting the results *)

(** A failed task makes the loop over the completed futures raise the
    exception of a failed task. *)
Lemma collect_raises results parts :
  Forall (λ result, match result with
                    | inl _ => True
                    | inr (_, k) => (k < length parts)%nat
                    end) results →
  Exists (λ result, ∃ e, result = inl e) results →
  ∃ e, collect results parts = inl e ∧ inl e ∈ results.
Proof.
  intros Hbound Hfail. revert parts Hbound.
  induction Hfail as [result results [e ->]|result results _ IH];
    intros parts Hbound; simpl.
  { exists e. split; [done|]. set_solver. }
  apply Forall_cons in Hbound as [Hk Hbound].
  destruct result as [e|[pf k]].
  { exists e. split; [done|]. set_solver. }
  rewrite bool_decide_true by done.
  destruct (IH (<[k := Some pf]> parts)) as (e & ? & ?).
  { by rewrite length_insert. }
  exists e. split; [done|]. set_solver.
Qed.

(** When every task succeeded, each slot of [parts] holds the segment of its
    ordinal, whatever the completion order. *)
Lemma collect_all file_path order parts :
  (∀ i, i ∈ order → (i < length parts)%nat) →
  ∃ parts',
    collect ((λ i, inr (part_name file_path i, i)) <$> order) parts = inr parts'
    ∧ length parts' = length parts
    ∧ ∀ i, parts' !! i =
        if decide (i ∈ order ∧ (i < length parts)%nat)
        then Some (Some (part_name file_path i)) else parts !! i.
Proof.
  revert parts.
  induction order as [|j order IH]; intros parts Hbound; cbn [fmap list_fmap collect].
  - exists parts. split; [done|]. split; [done|]. intros i.
    case_decide; [set_solver|done].
  - rewrite bool_decide_true by (apply Hbound; set_solver).
    destruct (IH (<[j := Some (part_name file_path j)]> parts))
      as (parts' & Hcollect & Hlen & Hlookup).
    { intros i Hi. rewrite length_insert. apply Hbound. set_solver. }
    exists parts'. split; [done|].
    rewrite length_insert in Hlen, Hlookup. split; [done|].
    intros i. rewrite Hlookup.
    destruct (decide (i = j)) as [->|Hij].
    + assert (j < length parts)%nat by (apply Hbound; set_solver).
      rewrite (decide_True (P := j ∈ j :: order ∧ _)) by set_solver.
      case_decide; [done|]. by rewrite list_lookup_insert_eq.
    + rewrite list_lookup_insert_ne by done.
      repeat case_decide; set_solver.
Qed.

Lemma collect_permutation file_path order (n : nat) :
  order ≡ₚ seq 0 n →
  collect ((λ i, inr (part_name file_path i, i)) <$> order) (replicate n None)
    = inr (Some ∘ part_name file_path <$> seq 0 n).
Proof.
  intros Hperm.
  assert (∀ i, i ∈ order ↔ (i < n)%nat) as Hin.
  { intros i. rewrite Hperm, elem_of_seq. lia. }
  destruct (collect_all file_path order (replicate n None))
    as (parts' & -> & Hlen & Hlookup).
  { intros i Hi. rewrite length_replicate. by apply Hin. }
  f_equal. apply list_eq. intros i.
  rewrite Hlookup, length_replicate, list_lookup_fmap.
  case_decide as Hi.
  - destruct Hi as [_ Hi]. by rewrite lookup_seq_lt.
  - assert (¬ (i < n)%nat) by (rewrite <-Hin in *; tauto).
    rewrite lookup_seq_ge by lia. simpl. apply lookup_replicate_None. lia.
Qed.

(** * The assembler *)

Lemma Forall2_lookup_frame (fs fs2 : filesystem) names bodies :
  Forall2 (λ name body, fs !! name = Some body) names bodies →
  (∀ name, name ∈ names → fs2 !! name = fs !! name) →
  Forall2 (λ name body, fs2 !! name = Some body) names bodies.
Proof.
  induction 1 as [|name body names bodies Hname _ IH]; intros Hsame;
    constructor.
  - rewrite Hsame; [done|set_solver].
  - apply IH. intros; apply Hsame; set_solver.
Qed.

Lemma combine_loop_spec file_path names bodies (fs : filesystem) acc :
  NoDup names → file_path ∉ names →
  fs !! file_path = Some acc →
  Forall2 (λ name body, fs !! name = Some body) names bodies →
  ∃ fs' : filesystem,
    combine_loop file_path (Some <$> names) fs = (inr (), fs')
    ∧ fs' !! file_path = Some (acc ++ mjoin bodies)
    ∧ ∀ path, path ≠ file_path →
        fs' !! path = if decide (path ∈ names) then None else fs !! path.
Proof.
  revert fs acc bodies.
  induction names as [|name names IH];
    intros fs acc bodies Hnodup Hdest Hacc Hbodies.
  - apply Forall2_nil_inv_l in Hbodies as ->.
    exists fs. rewrite app_nil_r. split; [done|]. split; [done|].
    intros path _. case_decide; [set_solver|done].
  - apply Forall2_cons_inv_l in Hbodies
      as (body & bodies' & Hname & Hbodies & ->).
    apply NoDup_cons in Hnodup as [Hfresh Hnodup].
    apply not_elem_of_cons in Hdest as [Hne Hdest].
    set (fs2 := delete name (<[file_path := acc ++ body]> fs) : filesystem).
    destruct (IH fs2 (acc ++ body) bodies') as (fs' & Hloop & Hfile & Hrest).
    + done.
    + done.
    + unfold fs2. by rewrite lookup_delete_ne, lookup_insert_eq.
    + apply (Forall2_lookup_frame fs); [done|].
      intros name' Hin. unfold fs2.
      rewrite lookup_delete_ne, lookup_insert_ne; [done|set_solver|set_solver].
    + exists fs'. split; [|split].
      * simpl. unfold mbind, io_bind, read, write, os_remove.
        rewrite Hname, Hacc. simpl.
        rewrite lookup_insert_ne, Hname by done. exact Hloop.
      * rewrite Hfile. simpl. by rewrite app_assoc.
      * intros path Hpath. rewrite Hrest by done. unfold fs2.
        destruct (decide (path = name)) as [->|Hpn].
        -- rewrite decide_False by done.
           rewrite decide_True by set_solver. by rewrite lookup_delete_eq.
        -- rewrite lookup_delete_ne, lookup_insert_ne by done.
           repeat case_decide; set_solver.
Qed.

(** * Splitting along the plan and joining again *)

Lemma slices_join_prefix data (c : Z) (k : nat) :
  0 ≤ c →
  mjoin ((λ r, slice data r.1 r.2) <$>
           ((λ i, (i * c, (i + 1) * c - 1)) <$> py_range (Z.of_nat k)))
    = take (k * Z.to_nat c) data.
Proof.
  intros Hc. induction k as [|k IH]; [done|].
  rewrite py_range_snoc by lia.
  replace (Z.of_nat (S k) - 1) with (Z.of_nat k) by lia.
  rewrite !fmap_app, join_app, IH. simpl. rewrite app_nil_r.
  unfold slice.
  replace ((Z.of_nat k + 1) * c - 1 - Z.of_nat k * c + 1) with c by ring.
  rewrite Z2Nat.inj_mul, Nat2Z.id by lia.
  rewrite take_take_drop. f_equal. lia.
Qed.

Lemma plan_ranges_join data num_threads ranges :
  1 ≤ num_threads →
  plan_ranges (Z.of_nat (length data)) num_threads = inr ranges →
  mjoin ((λ r, slice data r.1 r.2) <$> ranges) = data.
Proof.
  intros Hn. rewrite plan_ranges_shape by done. intros [= <-].
  destruct (chunk_size_bounds (Z.of_nat (length data)) num_threads) as [Hc Hle];
    [lia|done|].
  set (c := Z.of_nat (length data) `div` num_threads) in *.
  rewrite fmap_app, join_app.
  replace (num_threads - 1) with (Z.of_nat (Z.to_nat (num_threads - 1))) at 1
    by lia.
  rewrite slices_join_prefix by done. simpl. rewrite app_nil_r.
  unfold slice.
  rewrite Z2Nat.inj_mul by lia.
  rewrite take_take_drop. apply take_ge.
  rewrite <-Z2Nat.inj_mul by lia. nia.
Qed.

(** * The multi-worker path *)

Lemma download_file_multithread_unfold net order url file_path num_threads
    (fs : filesystem) :
  download_file_multithread net order url file_path num_threads fs =
    match net (Request HEAD url None) with
    | inl e => (inl e, fs)
    | inr r =>
        match total_size_of r with
        | inl e => (inl e, fs)
        | inr total_size =>
            match plan_ranges total_size num_threads with
            | inl e => (inl e, fs)
            | inr ranges =>
                let tasks := run_tasks net url file_path ranges order fs in
                match collect tasks.1 (replicate (Z.to_nat num_threads) None) with
                | inl e => (inl e, tasks.2)
                | inr parts => combine_parts file_path parts tasks.2
                end
            end
        end
    end.
Proof.
  unfold download_file_multithread, requests_head, executor, lift, mbind, io_bind.
  destruct (net _) as [e|r]; [done|].
  destruct (total_size_of r) as [e|total_size]; [done|].
  destruct (plan_ranges _ _) as [e|ranges]; [done|].
  destruct (run_tasks _ _ _ _ _ _) as [results fs1]. simpl.
  by destruct (collect _ _).
Qed.

Section multi_worker.
Variable net : network.
Variable order : list nat.
Variables url file_path : string.
Variable num_threads : Z.
Variable fs : filesystem.
Variable r : response.
Variable total_size : Z.
Variable ranges : list (Z * Z).

Hypothesis workers_pos : 1 ≤ num_threads.
Hypothesis order_perm : order ≡ₚ seq 0 (Z.to_nat num_threads).
Hypothesis probe : net (Request HEAD url None) = inr r.
Hypothesis probe_size : total_size_of r = inr total_size.
Hypothesis plan : plan_ranges total_size num_threads = inr ranges.

Let pn := part_name file_path.
Let names := pn <$> seq 0 (Z.to_nat num_threads).
Let fs1 := (run_tasks net url file_path ranges order fs).2.

Lemma order_elem_of i : i ∈ order ↔ (i < Z.to_nat num_threads)%nat.
Proof. rewrite order_perm, elem_of_seq. lia. Qed.

Lemma order_NoDup : NoDup order.
Proof. rewrite order_perm. apply NoDup_seq. Qed.

Lemma ranges_length : length ranges = Z.to_nat num_threads.
Proof. by eapply plan_ranges_length. Qed.

Lemma names_NoDup : NoDup names.
Proof.
  apply NoDup_fmap_2_strong; [|apply NoDup_seq].
  intros i j _ _. apply part_name_inj.
Qed.

Lemma names_destination : file_path ∉ names.
Proof.
  intros (i & Heq & _)%list_elem_of_fmap. by eapply part_name_ne.
Qed.

Lemma names_order path : path ∉ names → ∀ i, i ∈ order → path ≠ pn i.
Proof.
  intros Hpath i Hi ->. apply Hpath, list_elem_of_fmap_2.
  apply elem_of_seq. apply order_elem_of in Hi. lia.
Qed.

(** When every fetch succeeds, the destination holds the segments joined
    in the order of their ordinals, and no segment file is left. *)
Lemma multi_worker_success :
  (∀ (i : nat) range,
     ranges !! i = Some range → is_Some (fetched net url range)) →
  ∃ fs' : filesystem,
    download_file_multithread net order url file_path num_threads fs
      = (inr (), fs')
    ∧ fs' !! file_path
      = Some (mjoin ((λ range, default [] (fetched net url range)) <$> ranges))
    ∧ ∀ path, path ≠ file_path →
        fs' !! path = if decide (path ∈ names) then None else fs !! path.
Proof.
  intros Hall.
  rewrite download_file_multithread_unfold, probe, probe_size, plan.
  cbv zeta.
  rewrite run_tasks_all_fetched; last first.
  { intros i Hi. apply order_elem_of in Hi.
    destruct (lookup_lt_is_Some_2 ranges i) as [range Hrange].
    { rewrite ranges_length. lia. }
    eauto. }
  rewrite collect_permutation by done.
  rewrite list_fmap_compose. fold pn names fs1.
  unfold combine_parts, mbind, io_bind, open_wb.
  destruct (combine_loop_spec file_path names
              ((λ range, default [] (fetched net url range)) <$> ranges)
              (<[file_path := []]> fs1) [])
    as (fs' & Hloop & Hfile & Hrest).
  - apply names_NoDup.
  - apply names_destination.
  - apply lookup_insert_eq.
  - apply Forall2_same_length_lookup_2.
    { unfold names. by rewrite !length_fmap, length_seq, ranges_length. }
    intros i name body Hname Hbody.
    unfold names in Hname.
    rewrite list_lookup_fmap in Hname. rewrite list_lookup_fmap in Hbody.
    destruct (seq 0 (Z.to_nat num_threads) !! i) as [j|] eqn:Hj; [|done].
    apply lookup_seq in Hj as [-> Hi]. simpl in Hname.
    destruct (ranges !! i) as [range|] eqn:Hrange; [|done].
    destruct (Hall i range Hrange) as [bytes Hbytes].
    simpl in Hbody. rewrite Hbytes in Hbody. simplify_eq/=.
    rewrite lookup_insert_ne by apply not_eq_sym, part_name_ne.
    unfold fs1. eapply run_tasks_fetched; try done.
    + apply order_NoDup.
    + by apply order_elem_of.
  - exists fs'. split; [done|]. split; [done|].
    intros path Hpath. rewrite Hrest by done.
    case_decide as Hin; [done|].
    rewrite lookup_insert_ne by done.
    unfold fs1. apply run_tasks_frame. by apply names_order.
Qed.

(** When a fetch fails, the loop over the completed futures raises the
    exception of a failed fetcher. *)
Lemma multi_worker_collect_raises (i : nat) range :
  ranges !! i = Some range → fetched net url range = None →
  ∃ e (j : nat) range',
    collect (run_tasks net url file_path ranges order fs).1
      (replicate (Z.to_nat num_threads) None) = inl e
    ∧ ranges !! j = Some range' ∧ fetch_error net url range' = Some e.
Proof.
  intros Hrange Hfail.
  destruct (collect_raises
              (run_tasks net url file_path ranges order fs).1
              (replicate (Z.to_nat num_threads) None))
    as (e & Hcollect & Hin).
  - rewrite length_replicate, <-ranges_length. apply run_tasks_ordinals.
  - eapply run_tasks_failed; [|done..].
    apply order_elem_of. rewrite <-ranges_length. by eapply lookup_lt_Some.
  - apply run_tasks_errors in Hin as (j & range' & _ & ? & ?).
    by exists e, j, range'.
Qed.

(** The job then raises that exception, and the file system is as the
    tasks left it. *)
Lemma multi_worker_failure (i : nat) range :
  ranges !! i = Some range → fetched net url range = None →
  ∃ e (j : nat) range',
    download_file_multithread net order url file_path num_threads fs
      = (inl e, fs1)
    ∧ ranges !! j = Some range' ∧ fetch_error net url range' = Some e.
Proof.
  intros Hrange Hfail.
  destruct (multi_worker_collect_raises i range Hrange Hfail)
    as (e & j & range' & Hcollect & ? & ?).
  rewrite download_file_multithread_unfold, probe, probe_size, plan.
  cbv zeta. rewrite Hcollect. by exists e, j, range'.
Qed.
End multi_worker.

Lemma plan_ranges_no_worker (total_size num_threads : Z) :
  num_threads < 1 → ∃ e, plan_ranges total_size num_threads = inl e.
Proof.
  intros Hn. unfold plan_ranges. case_bool_decide; [by eexists|].
  unfold py_range. replace (Z.to_nat num_threads) with 0%nat by lia.
  by eexists.
Qed.

Lemma range_server_fetched data url start end_ :
  fetched (range_server data) url (start, end_) = Some (slice data start end_).
Proof. unfold fetched. simpl. by rewrite app_nil_r. Qed.

(** C5: for every byte sequence and every worker count from 1 upwards, the
    segments cut from the sequence along the planner's ranges, joined in
    the order of their ordinals, give the sequence back; a multi-worker
    download from a server that serves those segments leaves exactly the
    sequence at the destination, whatever the order in which the fetches
    complete. *)
Theorem download_file_multithread_round_trip net order url file_path
    num_threads (fs : filesystem) r data :
  1 ≤ num_threads →
  order ≡ₚ seq 0 (Z.to_nat num_threads) →
  net (Request HEAD url None) = inr r →
  total_size_of r = inr (Z.of_nat (length data)) →
  (∀ start end_, fetched net url (start, end_) = Some (slice data start end_)) →
  ∃ ranges (fs' : filesystem),
    plan_ranges (Z.of_nat (length data)) num_threads = inr ranges
    ∧ mjoin ((λ range, slice data range.1 range.2) <$> ranges) = data
    ∧ download_file_multithread net order url file_path num_threads fs
      = (inr (), fs')
    ∧ fs' !! file_path = Some data.
Proof.
  intros Hn Hperm Hprobe Hsize Hserve.
  pose proof (plan_ranges_shape (Z.of_nat (length data)) num_threads Hn) as Hplan.
  pose proof (plan_ranges_join data num_threads _ Hn Hplan) as Hjoin.
  destruct (multi_worker_success net order url file_path num_threads fs r
              _ _ Hn Hperm Hprobe Hsize Hplan)
    as (fs' & Hrun & Hfile & _).
  { intros i [start end_] _. rewrite Hserve. by eexists. }
  eexists _, fs'. split; [exact Hplan|]. split; [exact Hjoin|].
  split; [exact Hrun|].
  rewrite Hfile. f_equal. etrans; [|exact Hjoin]. f_equal.
  apply list_fmap_ext. intros i [start end_] _. by rewrite Hserve.
Qed.

(** C5, witness: 10 bytes, 3 workers completing in the order 2, 0, 1. *)
Lemma download_file_multithread_round_trip_witness :
  let data := [x61; x62; x63; x64; x65; x66; x67; x68; x69; x6a] in
  ∃ ranges (fs' : filesystem),
    plan_ranges (Z.of_nat (length data)) 3 = inr ranges
    ∧ mjoin ((λ range, slice data range.1 range.2) <$> ranges) = data
    ∧ download_file_multithread (range_server data) [2; 0; 1]%nat "u" "out" 3 ∅
      = (inr (), fs')
    ∧ fs' !! "out" = Some data.
Proof.
  intros data.
  apply (download_file_multithread_round_trip (range_server data)
           [2; 0; 1]%nat "u" "out" 3 ∅
           (Response 200 (Some (pretty (Z.of_nat (length data)))) [] None) data).
  - lia.
  - apply (bool_decide_unpack _). vm_compute. exact I.
  - reflexivity.
  - vm_compute. reflexivity.
  - apply range_server_fetched.
Defined.

(** C4, as amended: when one of the concurrent chunk fetchers fails, the job
    fails with the exception of a failed fetcher, nothing is assembled and
    the destination is left as it was; the segment files of the fetchers
    that succeeded stay on disk. *)
Theorem download_file_multithread_fetch_failure net order url file_path
    num_threads (fs : filesystem) r total_size ranges (i : nat) range :
  1 ≤ num_threads →
  order ≡ₚ seq 0 (Z.to_nat num_threads) →
  net (Request HEAD url None) = inr r →
  total_size_of r = inr total_size →
  plan_ranges total_size num_threads = inr ranges →
  ranges !! i = Some range →
  fetched net url range = None →
  ∃ e (j : nat) range' (fs' : filesystem),
    download_file_multithread net order url file_path num_threads fs
      = (inl e, fs')
    ∧ ranges !! j = Some range' ∧ fetch_error net url range' = Some e
    ∧ fs' !! file_path = fs !! file_path
    ∧ ∀ (k : nat) range_k body,
        ranges !! k = Some range_k →
        fetched net url range_k = Some body →
        fs' !! part_name file_path k = Some body.
Proof.
  intros Hn Hperm Hprobe Hsize Hplan Hrange Hfail.
  destruct (multi_worker_failure net order url file_path num_threads fs r
              total_size ranges Hn Hperm Hprobe Hsize Hplan i range Hrange Hfail)
    as (e & j & range' & Hrun & Hj & He).
  exists e, j, range'. eexists. split; [exact Hrun|].
  split; [done|]. split; [done|]. split.
  - apply run_tasks_destination.
  - intros k range_k body Hk Hbody.
    eapply run_tasks_fetched; try done.
    + eapply order_NoDup; done.
    + eapply order_elem_of; [done|].
      erewrite <-ranges_length by done. by eapply lookup_lt_Some.
Qed.

(** C4, witness: 4 fetchers, of which the one for the bytes 2..3 is refused
    with status 403. *)
Lemma download_file_multithread_fetch_failure_witness :
  let data := [x61; x62; x63; x64; x65; x66; x67; x68] in
  let net := forbidding_server data 2 in
  let ranges := [(0, 1); (2, 3); (4, 5); (6, 7)] in
  ∃ e (j : nat) range' (fs' : filesystem),
    download_file_multithread net [3; 1; 0; 2]%nat "u" "out" 4 ∅ = (inl e, fs')
    ∧ ranges !! j = Some range' ∧ fetch_error net "u" range' = Some e
    ∧ fs' !! "out" = (∅ : filesystem) !! "out"
    ∧ ∀ (k : nat) range_k body,
        ranges !! k = Some range_k →
        fetched net "u" range_k = Some body →
        fs' !! part_name "out" k = Some body.
Proof.
  intros data net ranges.
  apply (download_file_multithread_fetch_failure net [3; 1; 0; 2]%nat "u" "out"
           4 ∅ (Response 200 (Some (pretty (Z.of_nat (length data)))) [] None)
           8 ranges 1 (2, 3)).
  - lia.
  - apply (bool_decide_unpack _). vm_compute. exact I.
  - reflexivity.
  - vm_compute. reflexivity.
  - reflexivity.
  - reflexivity.
  - reflexivity.
Defined.

(** C4, as stated, fails: after one of 4 fetchers is refused with status
    403, the segment files of the other three are still on disk. *)
Lemma fetch_failure_leaves_segments :
  let data := [x61; x62; x63; x64; x65; x66; x67; x68] in
  let outcome :=
    download_file_multithread (forbidding_server data 2) [3; 1; 0; 2]%nat
      "u" "out" 4 ∅ in
  outcome.1 = inl (HTTPError 403)
  ∧ outcome.2 !! "out" = None
  ∧ outcome.2 !! "out.part0" = Some [x61; x62]
  ∧ outcome.2 !! "out.part2" = Some [x65; x66]
  ∧ outcome.2 !! "out.part3" = Some [x67; x68].
Proof. vm_compute. repeat split. Qed.

(** * The destination file *)

(** C6, as amended: on the multi-worker path every segment is written to a
    location of its own, which is not the destination, and the destination
    is created or changed only when every fetcher of the job has succeeded:
    a job that fails leaves the destination as it was. *)
Theorem download_file_multithread_destination net order url file_path
    num_threads (fs fs' : filesystem) result :
  order ≡ₚ seq 0 (Z.to_nat num_threads) →
  download_file_multithread net order url file_path num_threads fs
    = (result, fs') →
  (∀ i j, part_name file_path i = part_name file_path j → i = j)
  ∧ (∀ i, part_name file_path i ≠ file_path)
  ∧ (∀ e, result = inl e → fs' !! file_path = fs !! file_path)
  ∧ (fs' !! file_path ≠ fs !! file_path →
     ∃ r total_size ranges,
       net (Request HEAD url None) = inr r
       ∧ total_size_of r = inr total_size
       ∧ plan_ranges total_size num_threads = inr ranges
       ∧ ∀ (i : nat) range,
           ranges !! i = Some range → is_Some (fetched net url range)).
Proof.
  intros Hperm Hrun.
  split; [apply part_name_inj|]. split; [apply part_name_ne|].
  assert (∀ e, result = inl e → fs' !! file_path = fs !! file_path) as Hfail;
    [|split; [done|]].
  - intros e ->. revert Hrun.
    rewrite download_file_multithread_unfold.
    destruct (net _) as [e'|r] eqn:Hprobe; [by intros [= _ <-]|].
    destruct (total_size_of r) as [e'|total_size] eqn:Hsize;
      [by intros [= _ <-]|].
    destruct (plan_ranges _ _) as [e'|ranges] eqn:Hplan;
      [by intros [= _ <-]|].
    cbv zeta.
    destruct (collect _ _) as [e'|parts] eqn:Hcollect.
    { intros [= _ <-]. apply run_tasks_destination. }
    intros Hcombine. exfalso.
    destruct (decide (1 ≤ num_threads)) as [Hn|Hn]; last first.
    { destruct (plan_ranges_no_worker total_size num_threads) as [? ?]; [lia|].
      congruence. }
    destruct (decide (Forall (λ range, is_Some (fetched net url range)) ranges))
      as [Hall|Hsome].
    + rewrite Forall_lookup in Hall.
      destruct (multi_worker_success net order url file_path num_threads fs r
                  total_size ranges Hn Hperm Hprobe Hsize Hplan Hall)
        as (fs'' & Hok & _).
      rewrite download_file_multithread_unfold, Hprobe, Hsize, Hplan in Hok.
      cbv zeta in Hok. rewrite Hcollect in Hok. congruence.
    + apply not_Forall_Exists in Hsome; [|apply _].
      apply Exists_exists in Hsome as (range & Hin & Hnone).
      apply list_elem_of_lookup in Hin as [i Hi].
      assert (fetched net url range = None) as Hnone'.
      { destruct (fetched net url range) eqn:?; [|done].
        exfalso. apply Hnone. by eexists. }
      destruct (multi_worker_collect_raises net order url file_path
                  num_threads fs total_size ranges Hn Hperm Hplan
                  i range Hi Hnone')
        as (e' & _ & _ & Hko & _).
      congruence.
  - intros Hchanged.
    destruct result as [e|[]]; [by destruct Hchanged; eapply Hfail|].
    revert Hrun. rewrite download_file_multithread_unfold.
    destruct (net _) as [e'|r] eqn:Hprobe; [done|].
    destruct (total_size_of r) as [e'|total_size] eqn:Hsize; [done|].
    destruct (plan_ranges _ _) as [e'|ranges] eqn:Hplan; [done|].
    cbv zeta. intros Hrun.
    exists r, total_size, ranges. repeat split; try done.
    destruct (decide (1 ≤ num_threads)) as [Hn|Hn]; last first.
    { destruct (plan_ranges_no_worker total_size num_threads) as [? ?]; [lia|].
      congruence. }
    destruct (decide (Forall (λ range, is_Some (fetched net url range)) ranges))
      as [Hall|Hsome]; [by apply Forall_lookup|].
    exfalso.
    apply not_Forall_Exists in Hsome; [|apply _].
    apply Exists_exists in Hsome as (range & Hin & Hnone).
    apply list_elem_of_lookup in Hin as [i Hi].
    assert (fetched net url range = None) as Hnone'.
    { destruct (fetched net url range) eqn:?; [|done].
      exfalso. apply Hnone. by eexists. }
    destruct (multi_worker_collect_raises net order url file_path
                num_threads fs total_size ranges Hn Hperm Hplan
                i range Hi Hnone')
      as (e' & _ & _ & Hko & _).
    rewrite Hko in Hrun. done.
Qed.

(** C6, witness: the job of 4 fetchers of which one is refused. *)
Lemma download_file_multithread_destination_witness :
  let data := [x61; x62; x63; x64; x65; x66; x67; x68] in
  let net := forbidding_server data 2 in
  let fs' := (download_file_multithread net [3; 1; 0; 2]%nat "u" "out" 4 ∅).2 in
  (∀ i j, part_name "out" i = part_name "out" j → i = j)
  ∧ (∀ i, part_name "out" i ≠ "out")
  ∧ (∀ e, (inl (HTTPError 403) : exn + ()) = inl e →
       fs' !! "out" = (∅ : filesystem) !! "out")
  ∧ (fs' !! "out" ≠ (∅ : filesystem) !! "out" →
     ∃ r total_size ranges,
       net (Request HEAD "u" None) = inr r
       ∧ total_size_of r = inr total_size
       ∧ plan_ranges total_size 4 = inr ranges
       ∧ ∀ (i : nat) range,
           ranges !! i = Some range → is_Some (fetched net "u" range)).
Proof.
  intros data net fs'.
  apply (download_file_multithread_destination net [3; 1; 0; 2]%nat "u" "out" 4
           ∅ fs' (inl (HTTPError 403))).
  - apply (bool_decide_unpack _). vm_compute. exact I.
  - vm_compute. reflexivity.
Defined.

(** C6, as stated, fails: a single-stream job writes to the destination as
    the body arrives; when the stream breaks after the first chunk, the job
    fails and the destination holds that chunk. *)
Lemma single_stream_leaves_partial_file :
  let net : network := λ req,
    match req_method req with
    | HEAD => inr (Response 200 (Some "4") [] None)
    | GET => inr (Response 200 (Some "4") [[x61; x62]]
                    (Some ChunkedEncodingError))
    end in
  let outcome := download_file net [0; 1]%nat "u" "out" 2 ∅ in
  outcome.1 = inl ChunkedEncodingError
  ∧ outcome.2 !! "out" = Some [x61; x62].
Proof. vm_compute. split; reflexivity. Qed.

(** * Further properties of the planner *)

(** X1: with a worker count of 0 the multi-worker download raises
    [ZeroDivisionError] and with a negative one [IndexError], once the probe
    has answered; no chunk is requested and no file is written. *)
Theorem download_file_multithread_no_workers net order url file_path
    num_threads (fs : filesystem) r total_size :
  num_threads ≤ 0 →
  net (Request HEAD url None) = inr r →
  total_size_of r = inr total_size →
  plan_ranges total_size num_threads
    = inl (if bool_decide (num_threads = 0)
           then ZeroDivisionError else IndexError)
  ∧ download_file_multithread net order url file_path num_threads fs
    = (inl (if bool_decide (num_threads = 0)
            then ZeroDivisionError else IndexError), fs).
Proof.
  intros Hn Hprobe Hsize.
  assert (plan_ranges total_size num_threads
          = inl (if bool_decide (num_threads = 0)
                 then ZeroDivisionError else IndexError)) as Hplan.
  { unfold plan_ranges. case_bool_decide; [done|].
    unfold py_range. by replace (Z.to_nat num_threads) with 0%nat by lia. }
  split; [done|].
  by rewrite download_file_multithread_unfold, Hprobe, Hsize, Hplan.
Qed.

Lemma download_file_multithread_no_workers_witness :
  let net : network := λ _, inr (Response 200 (Some "5000000") [] None) in
  plan_ranges 5000000 (-2)
    = inl (if bool_decide (-2 = 0) then ZeroDivisionError else IndexError)
  ∧ download_file_multithread net [] "u" "out" (-2) ∅
    = (inl (if bool_decide (-2 = 0) then ZeroDivisionError else IndexError), ∅).
Proof.
  intros net.
  apply (download_file_multithread_no_workers net [] "u" "out" (-2) ∅
           (Response 200 (Some "5000000") [] None) 5000000).
  - lia.
  - reflexivity.
  - vm_compute. reflexivity.
Defined.

(** * Further properties of the assembler *)

Lemma combine_loop_app file_path parts1 parts2 (fs : filesystem) :
  combine_loop file_path (parts1 ++ parts2) fs =
    match combine_loop file_path parts1 fs with
    | (inl e, fs') => (inl e, fs')
    | (inr (), fs') => combine_loop file_path parts2 fs'
    end.
Proof.
  revert fs. induction parts1 as [|part parts1 IH]; intros fs; [done|].
  simpl. unfold mbind, io_bind.
  destruct (read part fs) as [[e|content] fs1]; [done|].
  destruct (write file_path content fs1) as [[e|[]] fs2]; [done|].
  destruct (os_remove part fs2) as [[e|[]] fs3]; [done|].
  apply IH.
Qed.

(** X2: given distinct parts that exist and differ from the destination,
    [combine_parts] leaves at the destination the contents of the parts
    joined in the order of the list, replacing what was there; it removes
    every part and touches no other file. *)
Theorem combine_parts_joins file_path names bodies (fs : filesystem) :
  NoDup names →
  file_path ∉ names →
  Forall2 (λ name body, fs !! name = Some body) names bodies →
  ∃ fs' : filesystem,
    combine_parts file_path (Some <$> names) fs = (inr (), fs')
    ∧ fs' !! file_path = Some (mjoin bodies)
    ∧ (∀ name, name ∈ names → fs' !! name = None)
    ∧ (∀ path, path ≠ file_path → path ∉ names → fs' !! path = fs !! path).
Proof.
  intros Hnodup Hdest Hbodies.
  destruct (combine_loop_spec file_path names bodies
              (<[file_path := []]> fs) [] Hnodup Hdest)
    as (fs' & Hloop & Hfile & Hrest).
  { apply lookup_insert_eq. }
  { apply (Forall2_lookup_frame fs); [done|].
    intros name Hin. rewrite lookup_insert_ne; [done|]. by intros ->. }
  exists fs'. split; [done|]. split; [done|]. split.
  - intros name Hin. rewrite Hrest by (by intros ->).
    by rewrite decide_True.
  - intros path Hne Hout. rewrite Hrest by done.
    by rewrite decide_False, lookup_insert_ne.
Qed.

Lemma combine_parts_joins_witness :
  let fs : filesystem :=
    {[ "out.part0" := [x61; x62]; "out.part1" := [x63]; "out" := [x7a] ]} in
  ∃ fs' : filesystem,
    combine_parts "out" (Some <$> ["out.part0"; "out.part1"]) fs = (inr (), fs')
    ∧ fs' !! "out" = Some (mjoin [[x61; x62]; [x63]])
    ∧ (∀ name, name ∈ ["out.part0"; "out.part1"] → fs' !! name = None)
    ∧ (∀ path, path ≠ "out" → path ∉ ["out.part0"; "out.part1"] →
         fs' !! path = fs !! path).
Proof.
  intros fs.
  apply (combine_parts_joins "out" ["out.part0"; "out.part1"]
           [[x61; x62]; [x63]] fs).
  - apply (bool_decide_unpack _). vm_compute. exact I.
  - apply (bool_decide_unpack _). vm_compute. exact I.
  - repeat constructor.
Defined.

(** X3: when a part is missing, or is listed a second time, [combine_parts]
    raises [FileNotFoundError] there: the destination then holds the parts
    before it, which have been removed, and the parts after it are still on
    disk. *)
Theorem combine_parts_missing_part file_path names bodies missing rest
    (fs : filesystem) :
  NoDup names →
  file_path ∉ names →
  missing ≠ file_path →
  Forall2 (λ name body, fs !! name = Some body) names bodies →
  fs !! missing = None ∨ missing ∈ names →
  ∃ fs' : filesystem,
    combine_parts file_path ((Some <$> names) ++ Some missing :: rest) fs
      = (inl FileNotFoundError, fs')
    ∧ fs' !! file_path = Some (mjoin bodies)
    ∧ (∀ name, name ∈ names → fs' !! name = None)
    ∧ (∀ path, path ≠ file_path → path ∉ names → fs' !! path = fs !! path).
Proof.
  intros Hnodup Hdest Hmissing Hbodies Hgone.
  destruct (combine_parts_joins file_path names bodies fs Hnodup Hdest Hbodies)
    as (fs' & Hrun & Hfile & Hparts & Hrest).
  exists fs'. split; [|done].
  revert Hrun. unfold combine_parts, mbind, io_bind, open_wb.
  rewrite combine_loop_app. intros ->.
  assert (fs' !! missing = None) as Hnone.
  { destruct (decide (missing ∈ names)) as [Hin|Hout]; [by apply Hparts|].
    rewrite Hrest by done. by destruct Hgone. }
  simpl. unfold mbind, io_bind, read. by rewrite Hnone.
Qed.

Lemma combine_parts_missing_part_witness :
  let fs : filesystem :=
    {[ "out.part0" := [x61; x62]; "out.part2" := [x63] ]} in
  ∃ fs' : filesystem,
    combine_parts "out"
      ((Some <$> ["out.part0"]) ++ Some "out.part1" :: [Some "out.part2"]) fs
      = (inl FileNotFoundError, fs')
    ∧ fs' !! "out" = Some (mjoin [[x61; x62]])
    ∧ (∀ name, name ∈ ["out.part0"] → fs' !! name = None)
    ∧ (∀ path, path ≠ "out" → path ∉ ["out.part0"] →
         fs' !! path = fs !! path).
Proof.
  intros fs.
  apply (combine_parts_missing_part "out" ["out.part0"] [[x61; x62]]
           "out.part1" [Some "out.part2"] fs).
  - apply (bool_decide_unpack _). vm_compute. exact I.
  - apply (bool_decide_unpack _). vm_compute. exact I.
  - discriminate.
  - repeat constructor.
  - left. reflexivity.
Defined.

(** * Further properties of the multi-worker path *)

(** X4: a multi-worker download all of whose fetches succeed leaves none
    of its segment files behind, not even one that was there before the
    job, and changes no file other than the destination and the segments. *)
Theorem download_file_multithread_cleans_up net order url file_path
    num_threads (fs : filesystem) r total_size ranges :
  1 ≤ num_threads →
  order ≡ₚ seq 0 (Z.to_nat num_threads) →
  net (Request HEAD url None) = inr r →
  total_size_of r = inr total_size →
  plan_ranges total_size num_threads = inr ranges →
  (∀ (i : nat) range,
     ranges !! i = Some range → is_Some (fetched net url range)) →
  ∃ fs' : filesystem,
    download_file_multithread net order url file_path num_threads fs
      = (inr (), fs')
    ∧ (∀ i : nat, Z.of_nat i < num_threads →
         fs' !! part_name file_path i = None)
    ∧ (∀ path, path ≠ file_path →
         (∀ i : nat, Z.of_nat i < num_threads → path ≠ part_name file_path i) →
         fs' !! path = fs !! path).
Proof.
  intros Hn Hperm Hprobe Hsize Hplan Hall.
  destruct (multi_worker_success net order url file_path num_threads fs r
              total_size ranges Hn Hperm Hprobe Hsize Hplan Hall)
    as (fs' & Hrun & _ & Hrest).
  exists fs'. split; [done|]. split.
  - intros i Hi. rewrite Hrest by apply part_name_ne.
    rewrite decide_True; [done|].
    apply list_elem_of_fmap_2, elem_of_seq. lia.
  - intros path Hne Hout. rewrite Hrest by done.
    rewrite decide_False; [done|].
    intros (i & -> & Hi%elem_of_seq)%list_elem_of_fmap.
    apply (Hout i); [lia|done].
Qed.

Lemma download_file_multithread_cleans_up_witness :
  let data := [x61; x62; x63; x64; x65; x66; x67] in
  let fs : filesystem := {[ "out.part1" := [x7a]; "other" := [x79] ]} in
  ∃ fs' : filesystem,
    download_file_multithread (range_server data) [1; 0]%nat "u" "out" 2 fs
      = (inr (), fs')
    ∧ (∀ i : nat, Z.of_nat i < 2 → fs' !! part_name "out" i = None)
    ∧ (∀ path, path ≠ "out" →
         (∀ i : nat, Z.of_nat i < 2 → path ≠ part_name "out" i) →
         fs' !! path = fs !! path).
Proof.
  intros data fs.
  apply (download_file_multithread_cleans_up (range_server data) [1; 0]%nat
           "u" "out" 2 fs
           (Response 200 (Some (pretty (Z.of_nat (length data)))) [] None)
           7 [(0, 2); (3, 6)]).
  - lia.
  - apply (bool_decide_unpack _). vm_compute. exact I.
  - reflexivity.
  - vm_compute. reflexivity.
  - reflexivity.
  - intros i [start end_] _. rewrite range_server_fetched. by eexists.
Defined.

(** X5: when every fetch succeeds, the outcome of a multi-worker download
    does not depend on the order in which the fetchers complete: any two
    completion orders give the same result and the same file system. *)
Theorem download_file_multithread_order_independent net order1 order2 url
    file_path num_threads (fs : filesystem) r total_size ranges :
  1 ≤ num_threads →
  order1 ≡ₚ seq 0 (Z.to_nat num_threads) →
  order2 ≡ₚ seq 0 (Z.to_nat num_threads) →
  net (Request HEAD url None) = inr r →
  total_size_of r = inr total_size →
  plan_ranges total_size num_threads = inr ranges →
  (∀ (i : nat) range,
     ranges !! i = Some range → is_Some (fetched net url range)) →
  download_file_multithread net order1 url file_path num_threads fs
    = download_file_multithread net order2 url file_path num_threads fs.
Proof.
  intros Hn Hperm1 Hperm2 Hprobe Hsize Hplan Hall.
  destruct (multi_worker_success net order1 url file_path num_threads fs r
              total_size ranges Hn Hperm1 Hprobe Hsize Hplan Hall)
    as (fs1 & -> & Hfile1 & Hrest1).
  destruct (multi_worker_success net order2 url file_path num_threads fs r
              total_size ranges Hn Hperm2 Hprobe Hsize Hplan Hall)
    as (fs2 & -> & Hfile2 & Hrest2).
  f_equal. apply map_eq. intros path.
  destruct (decide (path = file_path)) as [->|Hne]; [congruence|].
  by rewrite Hrest1, Hrest2.
Qed.

Lemma download_file_multithread_order_independent_witness :
  let data := [x61; x62; x63; x64; x65; x66; x67] in
  download_file_multithread (range_server data) [2; 0; 1]%nat "u" "out" 3 ∅
    = download_file_multithread (range_server data) [1; 2; 0]%nat "u" "out" 3 ∅.
Proof.
  intros data.
  apply (download_file_multithread_order_independent (range_server data)
           [2; 0; 1]%nat [1; 2; 0]%nat "u" "out" 3 ∅
           (Response 200 (Some (pretty (Z.of_nat (length data)))) [] None)
           7 [(0, 1); (2, 3); (4, 6)]).
  - lia.
  - apply (bool_decide_unpack _). vm_compute. exact I.
  - apply (bool_decide_unpack _). vm_compute. exact I.
  - reflexivity.
  - vm_compute. reflexivity.
  - reflexivity.
  - intros i [start end_] _. rewrite range_server_fetched. by eexists.
Defined.

(** X6: with a server that ignores [Range] and answers every ranged GET
    with the whole resource, the multi-worker download succeeds and the
    destination holds the resource repeated once per worker. *)
Theorem download_file_multithread_range_ignored net order url file_path
    num_threads (fs : filesystem) r total_size data :
  1 ≤ num_threads →
  order ≡ₚ seq 0 (Z.to_nat num_threads) →
  net (Request HEAD url None) = inr r →
  total_size_of r = inr total_size →
  (∀ range, fetched net url range = Some data) →
  ∃ fs' : filesystem,
    download_file_multithread net order url file_path num_threads fs
      = (inr (), fs')
    ∧ fs' !! file_path = Some (mjoin (replicate (Z.to_nat num_threads) data)).
Proof.
  intros Hn Hperm Hprobe Hsize Hwhole.
  pose proof (plan_ranges_shape total_size num_threads Hn) as Hplan.
  destruct (multi_worker_success net order url file_path num_threads fs r
              total_size _ Hn Hperm Hprobe Hsize Hplan)
    as (fs' & Hrun & Hfile & _).
  { intros i range _. rewrite Hwhole. by eexists. }
  exists fs'. split; [done|].
  rewrite Hfile. do 2 f_equal.
  erewrite const_fmap.
  - by rewrite (plan_ranges_length total_size num_threads Hn _ Hplan).
  - intros i range _. by rewrite Hwhole.
Qed.

Lemma download_file_multithread_range_ignored_witness :
  let data := [x61; x62; x63] in
  ∃ fs' : filesystem,
    download_file_multithread (whole_server data) [1; 0]%nat "u" "out" 2 ∅
      = (inr (), fs')
    ∧ fs' !! "out" = Some (mjoin (replicate (Z.to_nat 2) data)).
Proof.
  intros data.
  apply (download_file_multithread_range_ignored (whole_server data)
           [1; 0]%nat "u" "out" 2 ∅
           (Response 200 (Some (pretty (Z.of_nat (length data)))) [] None)
           3 data).
  - lia.
  - apply (bool_decide_unpack _). vm_compute. exact I.
  - reflexivity.
  - vm_compute. reflexivity.
  - intros range. reflexivity.
Defined.

(** * Further properties of the directory loop *)

(** X7: the only exception [download_directory] lets through is that of
    the request for the listing, which it raises when the directory check
    has passed; a failure of [download_file] on a resource is never
    raised.  When the check fails nothing is requested or written. *)
Theorem download_directory_raises net sched dir_ok find_all_a base_url
    destination_folder num_threads (fs : filesystem) :
  (∀ e,
     (download_directory net sched dir_ok find_all_a base_url
        destination_folder num_threads fs).1 = inl e
     ↔ dir_ok = true ∧ net (Request GET base_url None) = inl e)
  ∧ (dir_ok = false →
     download_directory net sched dir_ok find_all_a base_url
       destination_folder num_threads fs = (inr (), fs)).
Proof.
  unfold download_directory, requests_get, lift, mbind, io_bind.
  destruct dir_ok; simpl; [|split; [intros e; naive_solver|done]].
  split; [|done]. intros e.
  destruct (net _) as [e'|r]; simpl; [naive_solver|].
  rewrite download_each_returns. naive_solver.
Qed.
